(** * AsteroidClustering: the orbital-mechanics kernel of [functions.py]

    A shallow embedding of [position_at_adalia_day], [calculate_orbital_period],
    [get_current_adalia_day], [apply_position_to_df] and [load_asteroids].

    Number model.  Python's [float] is idealised as a real number ([R] of the
    Standard Library): arithmetic is exact, there is no rounding, overflow,
    underflow, infinity or NaN.  What Python does on top of the arithmetic is
    kept: [math.sqrt] of a negative number raises [ValueError], a division by
    zero raises [ZeroDivisionError], [int] truncates towards zero, the
    [while] loop of the solver may run for ever (it is given fuel here), and
    numpy's narrowing of an integer column keeps the low bits in two's
    complement.  Statements that would hold in exact arithmetic only (that
    the loop ends, which integer a rounded square root truncates to) are
    kept apart from the properties of the code.  [get_current_adalia_day],
    which only divides, is also given on binary64 numbers. *)

From Stdlib Require Import Floats.PrimFloat.
From Stdlib Require Import Reals Lra Lia ZArith List String.
Import ListNotations.

Open Scope R_scope.

(** ** Outcomes of a Python call *)

Inductive PyExn : Type :=
| ZeroDivisionError
| ValueError
| KeyError.

(** [OutOfFuel] stands for a loop that has not ended within the fuel given. *)
Inductive outcome (A : Type) : Type :=
| Ok (v : A)
| Raise (x : PyExn)
| OutOfFuel.

Arguments Ok {A} v.
Arguments Raise {A} x.
Arguments OutOfFuel {A}.

Definition bind {A B : Type} (c : outcome A) (k : A -> outcome B) : outcome B :=
  match c with
  | Ok v => k v
  | Raise x => Raise x
  | OutOfFuel => OutOfFuel
  end.

Notation "x <- c ;; k" := (bind c (fun x => k))
  (at level 61, c at next level, right associativity).

(** A list comprehension whose body may raise: elements are evaluated from
    left to right and the first exception aborts the whole comprehension. *)
Fixpoint comprehension {A B : Type} (f : A -> outcome B) (l : list A)
  : outcome (list B) :=
  match l with
  | [] => Ok []
  | x :: xs => y <- f x ;; ys <- comprehension f xs ;; Ok (y :: ys)
  end.

(** ** The pieces of Python's [math] and of numpy that the module uses *)

Module Py.

(** [math.sqrt]: a negative argument is a math domain error. *)
Definition sqrt (x : R) : outcome R :=
  if Rlt_dec x 0 then Raise ValueError else Ok (R_sqrt.sqrt x).

(** [x / y] on floats. *)
Definition div (x y : R) : outcome R :=
  if Req_dec_T y 0 then Raise ZeroDivisionError else Ok (x / y).

(** [math.pow] with a literal natural exponent. *)
Definition pow (x : R) (n : nat) : R := x ^ n.

(** [int(x)] on a float: truncation towards zero. *)
Definition int (x : R) : Z :=
  if Rle_dec 0 x then Zfloor x else Zceil x.

(** [np.abs]. *)
Definition abs (x : R) : R := Rabs x.

(** [astype('intN')] on an integer column: the value modulo [2^bits],
    read as a signed two's complement number. *)
Definition astype_int (bits : Z) (z : Z) : Z :=
  ((z + 2 ^ (bits - 1)) mod 2 ^ bits - 2 ^ (bits - 1))%Z.

End Py.

(** ** Module constants *)

Definition START_ORBIT_TIMESTAMP : string := "2021-01-01T00:00:00+00:00".
Definition START_ARRIVAL_TIMESTAMP : string := "2021-04-17T14:00:00+00:00".
Definition AU_MULTIPLIER : R := 149.597871.

(** ** [position_at_adalia_day] *)

(** The Gaussian constant [k] and the tolerance of the loop. *)
Definition k : R := 0.01720209895.
Definition tolerance : R := 0.0000001.

(** Lines 35 and 38: mean motion and mean anomaly at the elapsed time. *)
Definition mean_anomaly (a m aday : R) : outcome R :=
  s <- Py.sqrt (Py.pow a 3) ;;
  n <- Py.div k s ;;
  Ok (m + (n * aday)).

(** Lines 44 to 47: the [while] loop, on the loop state [(E, last_diff)].
    The test is at the top of each round, as in the source. *)
Fixpoint kepler_while (fuel : nat) (M e E last_diff : R) : outcome R :=
  match fuel with
  | O => OutOfFuel
  | S fuel' =>
      if Rgt_dec last_diff tolerance then
        let E1 := M + (e * sin E) in
        let last_diff := Py.abs (E1 - E) in
        kepler_while fuel' M e E1 last_diff
      else Ok E
  end.

(** Lines 41 to 47: the solver, seeded with [E = M] and [last_diff = 1]. *)
Definition kepler_solve (fuel : nat) (M e : R) : outcome R :=
  kepler_while fuel M e M 1.

(** Line 50: true anomaly. *)
Definition true_anomaly (e E : R) : outcome R :=
  q <- Py.div (1 + e) (1 - e) ;;
  s <- Py.sqrt q ;;
  Ok (2 * atan (s * tan (E / 2))).

(** Line 51: current radius in AU. *)
Definition radius (a e v : R) : outcome R :=
  Py.div (a * (1 - Py.pow e 2)) (1 + e * cos v).

(** Lines 54 to 57: cartesian coordinates, scaled. *)
Definition cartesian (r i o p v : R) : list R :=
  let x := r * (cos o * cos (v + p - o) - (sin o * sin (v + p - o) * cos i)) in
  let y := r * (sin o * cos (v + p - o) + cos o * sin (v + p - o) * cos i) in
  let z := r * sin (v + p - o) * sin i in
  [x * AU_MULTIPLIER; y * AU_MULTIPLIER; z * AU_MULTIPLIER].

Definition position_at_adalia_day (fuel : nat) (a e i o w m aday : R)
  : outcome (list R) :=
  let p := w + o in
  M <- mean_anomaly a m aday ;;
  E <- kepler_solve fuel M e ;;
  v <- true_anomaly e E ;;
  r <- radius a e v ;;
  Ok (cartesian r i o p v).

(** ** [calculate_orbital_period] *)

Definition third_law : R := 0.000007495.

Definition calculate_orbital_period (a : R) : outcome Z :=
  s <- Py.sqrt (Py.pow a 3 / third_law) ;;
  Ok (Py.int s).

(** ** [get_current_adalia_day], [apply_position_to_df], [load_asteroids] *)

(** The orbital elements of one body, the ['orbital'] object of a line. *)
Record Orbital : Type := mkOrbital {
  orb_a : R;
  orb_e : R;
  orb_i : R;
  orb_o : R;
  orb_w : R;
  orb_m : R
}.

(** The ['customName'] entry of a decoded line: the key may be missing, and
    when it is there its value is JSON [null] or a string. *)
Inductive JsonName : Type :=
| NameAbsent
| NameNull
| NameString (s : string).

(** A line of the source file once [ujson.loads] has decoded it. *)
Record JsonLine : Type := mkJsonLine {
  line_i : Z;
  line_r : Z;
  line_baseName : string;
  line_orbital : Orbital;
  line_customName : JsonName
}.

(** A row of the data frame; [index] is the row label set by [set_index],
    and a [customName] of [None] is Python's [None]. *)
Record Row : Type := mkRow {
  index : Z;
  col_i : Z;
  col_r : Z;
  baseName : string;
  orbital : Orbital;
  customName : option string;
  orbital_T : Z
}.

(** A row once [apply_position_to_df] has added the ['pos'] column. *)
Record PosRow : Type := mkPosRow {
  row : Row;
  pos : list R
}.

Section Clock.

(** [pendulum.parse] and the instant that [pendulum.now()] reads, both as
    microseconds on the UTC time line. *)
Variable parse : string -> Z.
Variable now : Z.

(** [total_seconds()] of a difference of two instants. *)
Definition total_seconds (d : Z) : R := IZR d / 1000000.

Definition get_current_adalia_day (display_day : bool) : R :=
  let timestamp := START_ORBIT_TIMESTAMP in
  let timestamp := if display_day then START_ARRIVAL_TIMESTAMP else timestamp in
  let start_time := parse timestamp in
  let current_time := now in
  total_seconds (current_time - start_time) / 60 / 60.

Definition apply_position_to_df (fuel : nat) (df : list Row)
  : outcome (list PosRow) :=
  let curr_aday := get_current_adalia_day false in
  col <- comprehension
           (fun x => position_at_adalia_day fuel (orb_a x) (orb_e x) (orb_i x)
                       (orb_o x) (orb_w x) (orb_m x) curr_aday)
           (map orbital df) ;;
  Ok (map (fun rp => mkPosRow (fst rp) (snd rp)) (combine df col)).

(** Lines 119 to 123: the dictionary kept for one line; ['orbital.T'] is
    filled in by line 126 and the row label by line 127.  [dict.get] falls
    back on [''] only when the key is missing: a [null] is kept as [None]. *)
Definition unpack (unpacked_line : JsonLine) (T : Z) : Row :=
  mkRow (line_i unpacked_line)
        (line_i unpacked_line)
        (line_r unpacked_line)
        (line_baseName unpacked_line)
        (line_orbital unpacked_line)
        (match line_customName unpacked_line with
         | NameAbsent => Some EmptyString
         | NameNull => None
         | NameString s => Some s
         end)
        T.

(** Lines 129 to 131: the three columns that are narrowed. *)
Definition astype (x : Row) : Row :=
  mkRow (index x)
        (Py.astype_int 32 (col_i x))
        (Py.astype_int 32 (col_r x))
        (baseName x)
        (orbital x)
        (customName x)
        (Py.astype_int 16 (orbital_T x)).

(** Lines 126 to 132, on a frame that has its columns. *)
Definition load_rows (fuel : nat) (json_file : list JsonLine)
  : outcome (list PosRow) :=
  col <- comprehension
           (fun x => calculate_orbital_period (orb_a x))
           (map line_orbital json_file) ;;
  let asteroids_df :=
    map (fun lt => unpack (fst lt) (snd lt)) (combine json_file col) in
  let asteroids_df := map astype asteroids_df in
  apply_position_to_df fuel asteroids_df.

(** A file without lines gives a frame without columns, and line 126 then
    asks it for the column ['orbital']: [KeyError]. *)
Definition load_asteroids (fuel : nat) (json_file : list JsonLine)
  : outcome (list PosRow) :=
  match json_file with
  | [] => Raise KeyError
  | _ :: _ => load_rows fuel json_file
  end.

End Clock.

(** ** [get_current_adalia_day] on binary64 numbers

    The function only divides, so its last line can be run on the numbers
    Python has.  The instants and [total_seconds()] are pendulum's side. *)

Module B64.

Section Clock64.

Variable Instant : Type.
Variable parse : string -> Instant.
Variable now : Instant.

(** [(current_time - start_time).total_seconds()]. *)
Variable total_seconds : Instant -> Instant -> float.

Definition get_current_adalia_day (display_day : bool) : float :=
  let timestamp := START_ORBIT_TIMESTAMP in
  let timestamp := if display_day then START_ARRIVAL_TIMESTAMP else timestamp in
  let start_time := parse timestamp in
  let current_time := now in
  (total_seconds current_time start_time / 60 / 60)%float.

End Clock64.

End B64.

(** ** A sample body *)

(** A body at 21 AU, on a circular orbit. *)
Definition far_body : JsonLine :=
  mkJsonLine 1 1 "far" (mkOrbital 21 0 0 0 0 0) NameAbsent.

(** A body at 1 AU whose line has ["customName": null]. *)
Definition unnamed_body : JsonLine :=
  mkJsonLine 7 3 "near" (mkOrbital 1 0 0 0 0 0) NameNull.

(** * Properties *)

(** ** The primitives *)

Lemma sqrt_Ok (x : R) : 0 <= x -> Py.sqrt x = Ok (sqrt x).
Proof.
  intros Hx. unfold Py.sqrt.
  destruct (Rlt_dec x 0) as [Hneg | _]; [lra | reflexivity].
Qed.

Lemma sqrt_Raise (x : R) : x < 0 -> Py.sqrt x = Raise ValueError.
Proof.
  intros Hx. unfold Py.sqrt.
  destruct (Rlt_dec x 0) as [_ | Hpos]; [reflexivity | lra].
Qed.

Lemma div_Ok (x y : R) : y <> 0 -> Py.div x y = Ok (x / y).
Proof.
  intros Hy. unfold Py.div.
  destruct (Req_dec_T y 0) as [Hz | _]; [contradiction | reflexivity].
Qed.

Lemma div_Raise (x y : R) : y = 0 -> Py.div x y = Raise ZeroDivisionError.
Proof.
  intros Hy. unfold Py.div.
  destruct (Req_dec_T y 0) as [_ | Hnz]; [reflexivity | contradiction].
Qed.

Lemma int_floor (x : R) : 0 <= x -> Py.int x = Zfloor x.
Proof.
  intros Hx. unfold Py.int.
  destruct (Rle_dec 0 x) as [_ | Hneg]; [reflexivity | contradiction].
Qed.

Lemma tolerance_pos : 0 < tolerance.
Proof. unfold tolerance. lra. Qed.

(** ** The sine is 1-Lipschitz *)

Lemma sin_abs_le (x : R) : Rabs (sin x) <= Rabs x.
Proof.
  destruct (SIN_bound x) as [Hlo Hhi].
  destruct (Rtotal_order x 0) as [Hneg | [Hz | Hpos]].
  - pose proof (sin_gt_x x Hneg) as Hgt.
    rewrite (Rabs_left x Hneg).
    apply Rabs_le. split; [lra |].
    destruct (Rle_dec x (-1)) as [Hbig | Hsmall]; [lra |].
    assert (Hs : 0 < sin (- x)) by (apply sin_pos_tech; lra).
    rewrite sin_neg in Hs. lra.
  - subst x. rewrite sin_0, Rabs_R0. lra.
  - pose proof (sin_lt_x x Hpos) as Hlt.
    rewrite (Rabs_right x) by lra.
    apply Rabs_le. split; [| lra].
    destruct (Rle_dec 1 x) as [Hbig | Hsmall]; [lra |].
    assert (Hs : 0 < sin x) by (apply sin_pos_tech; lra).
    lra.
Qed.

Lemma sin_lipschitz (p q : R) : Rabs (sin p - sin q) <= Rabs (p - q).
Proof.
  rewrite form4.
  rewrite !Rabs_mult.
  rewrite (Rabs_right 2) by lra.
  pose proof (sin_abs_le ((p - q) / 2)) as Hs.
  assert (Hc : Rabs (cos ((p + q) / 2)) <= 1).
  { apply Rabs_le. destruct (COS_bound ((p + q) / 2)). lra. }
  assert (Hh : Rabs ((p - q) / 2) = Rabs (p - q) / 2).
  { unfold Rdiv. rewrite Rabs_mult. rewrite (Rabs_right (/ 2)) by lra. reflexivity. }
  rewrite Hh in Hs.
  pose proof (Rabs_pos (cos ((p + q) / 2))) as Hc0.
  pose proof (Rabs_pos (sin ((p - q) / 2))) as Hs0.
  nra.
Qed.

(** One more round of the iteration shrinks the step by the factor [|e|]. *)
Lemma step_contracts (M e E : R) :
  let E1 := M + e * sin E in
  Rabs (M + e * sin E1 - E1) <= Rabs e * Rabs (E1 - E).
Proof.
  intros E1. unfold E1 at 2.
  replace (M + e * sin E1 - (M + e * sin E)) with (e * (sin E1 - sin E)) by ring.
  rewrite Rabs_mult.
  apply Rmult_le_compat_l; [apply Rabs_pos | apply sin_lipschitz].
Qed.

(** ** The loop *)

Lemma kepler_while_more_fuel (n extra : nat) (M e E d E' : R) :
  kepler_while n M e E d = Ok E' ->
  kepler_while (n + extra) M e E d = Ok E'.
Proof.
  revert E d. induction n as [| n IH]; intros E d; simpl.
  - discriminate.
  - destruct (Rgt_dec d tolerance); [apply IH | trivial].
Qed.

(** What the loop returns: the state it was started in when the test fails at
    once, and otherwise an iterate one tolerance away from the one before. *)
Lemma kepler_while_returns (n : nat) (M e E d E' : R) :
  kepler_while n M e E d = Ok E' ->
  (~ d > tolerance /\ E' = E) \/
  (exists Eprev, E' = M + e * sin Eprev /\ Rabs (E' - Eprev) <= tolerance).
Proof.
  revert E d. induction n as [| n IH]; intros E d; simpl.
  - discriminate.
  - destruct (Rgt_dec d tolerance) as [Hgt | Hle].
    + intros Hrun. right.
      destruct (IH _ _ Hrun) as [[Hstop Heq] | Hlater]; [| exact Hlater].
      exists E. subst E'. split; [reflexivity |].
      unfold Py.abs in Hstop. lra.
    + intros Hrun. injection Hrun as <-. left. split; [exact Hle | reflexivity].
Qed.

Lemma kepler_while_never_raises (n : nat) (M e E d : R) (x : PyExn) :
  kepler_while n M e E d <> Raise x.
Proof.
  revert E d. induction n as [| n IH]; intros E d; simpl.
  - discriminate.
  - destruct (Rgt_dec d tolerance); [apply IH | discriminate].
Qed.

(** Termination: when the next step of the state is at most [c] and
    [c * |e|^n] is within the tolerance, [n + 2] rounds are enough. *)
Lemma kepler_while_ends (n : nat) (M e : R) :
  forall E d c,
    Rabs (M + e * sin E - E) <= c ->
    c * Rabs e ^ n <= tolerance ->
    exists E', kepler_while (n + 2) M e E d = Ok E'.
Proof.
  induction n as [| n IH]; intros E d c Hnext Hsmall.
  - simpl in Hsmall. simpl.
    destruct (Rgt_dec d tolerance) as [Hgt | Hle]; [| eauto].
    destruct (Rgt_dec (Py.abs (M + e * sin E - E)) tolerance) as [Hgt' | Hle'];
      [| eauto].
    unfold Py.abs in Hgt'. lra.
  - change (S n + 2)%nat with (S (n + 2)). simpl.
    destruct (Rgt_dec d tolerance) as [Hgt | Hle]; [| eauto].
    apply (IH _ _ (Rabs e * c)).
    + pose proof (step_contracts M e E) as Hstep. simpl in Hstep.
      pose proof (Rabs_pos e). nra.
    + simpl in Hsmall. lra.
Qed.

Lemma kepler_solve_ends (M e : R) :
  Rabs e < 1 -> exists n E, kepler_solve n M e = Ok E.
Proof.
  intros He.
  destruct (pow_lt_1_zero (Rabs e) ltac:(rewrite Rabs_Rabsolu; exact He)
              tolerance tolerance_pos) as [N HN].
  specialize (HN N (Nat.le_refl N)).
  destruct (kepler_while_ends N M e M 1 1) as [E HE].
  - replace (M + e * sin M - M) with (e * sin M) by ring.
    rewrite Rabs_mult.
    pose proof (SIN_bound M) as [Hlo Hhi].
    assert (Hs : Rabs (sin M) <= 1) by (apply Rabs_le; lra).
    pose proof (Rabs_pos e). pose proof (Rabs_pos (sin M)). nra.
  - rewrite Rabs_right in HN; [lra |].
    apply Rle_ge, pow_le, Rabs_pos.
  - exists (N + 2)%nat, E. exact HE.
Qed.

Lemma kepler_solve_returns (n : nat) (M e E : R) :
  kepler_solve n M e = Ok E ->
  exists Eprev, E = M + e * sin Eprev /\ Rabs (E - Eprev) <= tolerance.
Proof.
  intros Hrun. unfold kepler_solve in Hrun.
  destruct (kepler_while_returns _ _ _ _ _ _ Hrun) as [[Hstop _] | Hres].
  - exfalso. apply Hstop. unfold tolerance. lra.
  - exact Hres.
Qed.

Lemma kepler_solve_deterministic (n n' : nat) (M e E E' : R) :
  kepler_solve n M e = Ok E -> kepler_solve n' M e = Ok E' -> E = E'.
Proof.
  intros H H'. unfold kepler_solve in *.
  apply (kepler_while_more_fuel _ n') in H.
  apply (kepler_while_more_fuel _ n) in H'.
  rewrite Nat.add_comm in H'. congruence.
Qed.

(** When [e * sin M = 0] the first round already lands on a fixed point and
    the second round leaves the loop. *)
Lemma kepler_solve_two_rounds (n : nat) (M e : R) :
  e * sin M = 0 -> (2 <= n)%nat -> kepler_solve n M e = Ok (M + e * sin M).
Proof.
  intros Hfix Hn.
  destruct n as [| [| n]]; [lia | lia |].
  unfold kepler_solve. simpl.
  destruct (Rgt_dec 1 tolerance) as [_ | Hno].
  - destruct (Rgt_dec (Py.abs (M + e * sin M - M)) tolerance) as [Hgt | _];
      [| reflexivity].
    exfalso. unfold Py.abs in Hgt.
    replace (M + e * sin M - M) with 0 in Hgt by lra.
    rewrite Rabs_R0 in Hgt. pose proof tolerance_pos. lra.
  - exfalso. apply Hno. unfold tolerance. lra.
Qed.

(** ** The stages of [position_at_adalia_day] on valid elements *)

Lemma pow3_pos (a : R) : 0 < a -> 0 < a ^ 3.
Proof. intros Ha. apply pow_lt. exact Ha. Qed.

Lemma mean_anomaly_Ok (a m aday : R) :
  0 < a -> mean_anomaly a m aday = Ok (m + k / sqrt (a ^ 3) * aday).
Proof.
  intros Ha. unfold mean_anomaly, Py.pow.
  pose proof (pow3_pos a Ha) as H3.
  rewrite sqrt_Ok by (apply Rlt_le; exact H3). cbn [bind].
  rewrite div_Ok; [reflexivity |].
  apply Rgt_not_eq, sqrt_lt_R0. exact H3.
Qed.

Lemma true_anomaly_Ok (e E : R) :
  -1 <= e < 1 ->
  true_anomaly e E = Ok (2 * atan (sqrt ((1 + e) / (1 - e)) * tan (E / 2))).
Proof.
  intros He. unfold true_anomaly.
  rewrite div_Ok by lra. cbn [bind].
  rewrite sqrt_Ok; [reflexivity |].
  apply Rmult_le_pos; [lra |].
  apply Rlt_le, Rinv_0_lt_compat. lra.
Qed.

Lemma radius_Ok (a e v : R) :
  Rabs e < 1 -> radius a e v = Ok (a * (1 - e ^ 2) / (1 + e * cos v)).
Proof.
  intros He. unfold radius, Py.pow.
  apply div_Ok.
  assert (Hb : Rabs (e * cos v) < 1).
  { rewrite Rabs_mult.
    assert (Hc : Rabs (cos v) <= 1).
    { apply Rabs_le. destruct (COS_bound v). lra. }
    pose proof (Rabs_pos e). pose proof (Rabs_pos (cos v)). nra. }
  apply Rabs_def2 in Hb. lra.
Qed.

(** On valid elements the call returns, with enough fuel for the loop. *)
Lemma position_Ok (a e i o w m aday : R) :
  0 < a -> Rabs e < 1 ->
  exists n v r,
    forall n', (n <= n')%nat ->
      position_at_adalia_day n' a e i o w m aday
      = Ok (cartesian r i o (w + o) v).
Proof.
  intros Ha He.
  destruct (kepler_solve_ends (m + k / sqrt (a ^ 3) * aday) e He) as (n & E & HE).
  exists n, (2 * atan (sqrt ((1 + e) / (1 - e)) * tan (E / 2))).
  eexists. intros n' Hn'.
  unfold position_at_adalia_day.
  rewrite mean_anomaly_Ok by exact Ha. cbn [bind].
  replace n' with (n + (n' - n))%nat by lia.
  unfold kepler_solve in *.
  rewrite (kepler_while_more_fuel _ _ _ _ _ _ _ HE). cbn [bind].
  rewrite true_anomaly_Ok by (apply Rabs_def2 in He; lra). cbn [bind].
  rewrite radius_Ok by exact He. cbn [bind].
  reflexivity.
Qed.

(** ** The solver in exact arithmetic *)

(** In exact arithmetic, for [0 <= e < 1] and [M] in [[-50, 50]] the loop of the solver
    returns, and every value [E] it returns has a residual
    [|E - e*sin(E) - M|] of at most [1e-6]. *)
Theorem kepler_residual_bound (e M : R) :
  0 <= e < 1 -> -50 <= M <= 50 ->
  (exists n E, kepler_solve n M e = Ok E) /\
  (forall n E, kepler_solve n M e = Ok E ->
               Rabs (E - e * sin E - M) <= 0.000001).
Proof.
  intros He _. split.
  - apply kepler_solve_ends. rewrite Rabs_right; lra.
  - intros n E Hrun.
    destruct (kepler_solve_returns _ _ _ _ Hrun) as (Eprev & HE & Hclose).
    assert (Hres : E - e * sin E - M = e * (sin Eprev - sin E)) by lra.
    rewrite Hres.
    rewrite Rabs_mult, (Rabs_right e) by lra.
    pose proof (sin_lipschitz Eprev E) as Hlip.
    rewrite (Rabs_minus_sym Eprev E) in Hlip.
    pose proof (Rabs_pos (sin Eprev - sin E)).
    unfold tolerance in Hclose. nra.
Qed.

Lemma kepler_residual_bound_witness :
  (exists n E, kepler_solve n 1 0.5 = Ok E) /\
  (forall n E, kepler_solve n 1 0.5 = Ok E ->
               Rabs (E - 0.5 * sin E - 1) <= 0.000001).
Proof. apply (kepler_residual_bound 0.5 1); lra. Defined.

(** In exact arithmetic, for [0 <= e < 1] and every real [M] the [while] loop ends after
    finitely many rounds: from some amount of fuel on the solver returns one
    and the same value [E], the last iterate [M + e*sin(Eprev)], which is
    within the tolerance [1e-7] of the iterate before it. *)
Theorem kepler_loop_terminates (e M : R) :
  0 <= e < 1 ->
  exists n E Eprev,
    (forall n', (n <= n')%nat -> kepler_solve n' M e = Ok E) /\
    E = M + e * sin Eprev /\
    Rabs (E - Eprev) <= 0.0000001.
Proof.
  intros He.
  destruct (kepler_solve_ends M e) as (n & E & Hrun).
  { rewrite Rabs_right; lra. }
  destruct (kepler_solve_returns _ _ _ _ Hrun) as (Eprev & HE & Hclose).
  exists n, E, Eprev. split; [| split].
  - intros n' Hn'. replace n' with (n + (n' - n))%nat by lia.
    apply kepler_while_more_fuel. exact Hrun.
  - exact HE.
  - exact Hclose.
Qed.

Lemma kepler_loop_terminates_witness :
  exists n E Eprev,
    (forall n', (n <= n')%nat -> kepler_solve n' 3 0.9 = Ok E) /\
    E = 3 + 0.9 * sin Eprev /\
    Rabs (E - Eprev) <= 0.0000001.
Proof. apply (kepler_loop_terminates 0.9 3). lra. Defined.

Lemma position_more_fuel (n extra : nat) (a e i o w m aday : R) (xyz : list R) :
  position_at_adalia_day n a e i o w m aday = Ok xyz ->
  position_at_adalia_day (n + extra) a e i o w m aday = Ok xyz.
Proof.
  unfold position_at_adalia_day.
  destruct (mean_anomaly a m aday) as [M | x |]; cbn [bind]; try discriminate.
  destruct (kepler_solve n M e) as [E | x |] eqn:Hrun; cbn [bind]; try discriminate.
  unfold kepler_solve in *.
  rewrite (kepler_while_more_fuel _ extra _ _ _ _ _ Hrun). cbn [bind].
  trivial.
Qed.

(** ** C2: eccentricities outside [[0, 1)] *)

(** The mean anomaly handed to the solver is [0] when [m] and the day are. *)
Ltac anomaly_is_zero :=
  match goal with
  | |- context [kepler_solve _ ?M _] => replace M with 0 by ring
  end.

(** With [e = 1] the division of line 50 is a division by zero, whatever the
    anomaly the loop hands over. *)
Lemma true_anomaly_parabolic (E : R) :
  true_anomaly 1 E = Raise ZeroDivisionError.
Proof.
  unfold true_anomaly. rewrite div_Raise by lra. reflexivity.
Qed.

(** C2, counterexample.  With [e = -0.1] (and [a = 1], all angles and the day
    zero) the call raises nothing: it returns the coordinates
    [[1.1 * 149.597871, 0, 0]]. *)
Lemma negative_eccentricity_returns :
  position_at_adalia_day 2 1 (-0.1) 0 0 0 0 0 = Ok [1.1 * AU_MULTIPLIER; 0; 0].
Proof.
  unfold position_at_adalia_day.
  rewrite mean_anomaly_Ok by lra. cbn [bind].
  anomaly_is_zero.
  rewrite kepler_solve_two_rounds; [| rewrite sin_0; lra | lia]. cbn [bind].
  rewrite sin_0.
  rewrite true_anomaly_Ok by lra. cbn [bind].
  replace ((0 + -0.1 * 0) / 2) with 0 by lra.
  rewrite tan_0, Rmult_0_r, atan_0, Rmult_0_r.
  rewrite radius_Ok by (rewrite Rabs_left; lra). cbn [bind].
  unfold cartesian.
  replace (0 + (0 + 0) - 0) with 0 by lra.
  rewrite sin_0, cos_0.
  repeat f_equal; lra.
Qed.

(** C2, amended.  The function has no check on [e].  With [e = 1] it never
    returns coordinates, whatever the other arguments: if line 50 is reached,
    the division [(1+e)/(1-e)] raises [ZeroDivisionError].  With [e = -0.1]
    neither line 50 nor line 51 raises, whatever the loop hands over and
    whatever [a] is: nothing rejects a negative eccentricity. *)
Theorem eccentricity_not_checked :
  (forall n a i o w m aday xyz,
      position_at_adalia_day n a 1 i o w m aday <> Ok xyz) /\
  (forall E, true_anomaly 1 E = Raise ZeroDivisionError) /\
  (forall a E, exists v r,
      true_anomaly (-0.1) E = Ok v /\ radius a (-0.1) v = Ok r).
Proof.
  split; [| split].
  - intros n a i o w m aday xyz. unfold position_at_adalia_day.
    destruct (mean_anomaly a m aday) as [M | x |]; cbn [bind]; try discriminate.
    destruct (kepler_solve n M 1) as [E | x |]; cbn [bind]; try discriminate.
    rewrite true_anomaly_parabolic. discriminate.
  - exact true_anomaly_parabolic.
  - intros a E. do 2 eexists. split.
    + apply true_anomaly_Ok. lra.
    + apply radius_Ok. rewrite Rabs_left; lra.
Qed.

(** With [e = 1], [a = 1] and the mean anomaly zero the loop ends after two
    rounds and the call raises [ZeroDivisionError]. *)
Example parabolic_raises :
  position_at_adalia_day 2 1 1 0 0 0 0 0 = Raise ZeroDivisionError.
Proof.
  unfold position_at_adalia_day.
  rewrite mean_anomaly_Ok by lra. cbn [bind].
  anomaly_is_zero.
  rewrite kepler_solve_two_rounds; [| rewrite sin_0; lra | lia]. cbn [bind].
  rewrite true_anomaly_parabolic. reflexivity.
Qed.

(** ** C8: zero inclination *)


(** The body of the spec's scenario, at its periapsis. *)
Lemma position_at_periapsis :
  position_at_adalia_day 2 1 0.1 0 0 0 0 0 = Ok [0.9 * AU_MULTIPLIER; 0; 0].
Proof.
  unfold position_at_adalia_day.
  rewrite mean_anomaly_Ok by lra. cbn [bind].
  anomaly_is_zero.
  rewrite kepler_solve_two_rounds; [| rewrite sin_0; lra | lia]. cbn [bind].
  rewrite sin_0.
  rewrite true_anomaly_Ok by lra. cbn [bind].
  replace ((0 + 0.1 * 0) / 2) with 0 by lra.
  rewrite tan_0, Rmult_0_r, atan_0, Rmult_0_r.
  rewrite radius_Ok by (rewrite Rabs_right; lra). cbn [bind].
  unfold cartesian.
  replace (0 + (0 + 0) - 0) with 0 by lra.
  rewrite sin_0, cos_0.
  repeat f_equal; lra.
Qed.



(** ** C4, C5: [calculate_orbital_period] *)

Lemma third_law_pos : 0 < third_law.
Proof. unfold third_law. lra. Qed.

Lemma period_arg_nonneg (a : R) : 0 <= a -> 0 <= Py.pow a 3 / third_law.
Proof.
  intros Ha. unfold Py.pow.
  apply Rmult_le_pos; [apply pow_le; exact Ha |].
  apply Rlt_le, Rinv_0_lt_compat, third_law_pos.
Qed.

Lemma period_Ok (a : R) :
  0 <= a -> calculate_orbital_period a = Ok (Zfloor (sqrt (a ^ 3 / third_law))).
Proof.
  intros Ha. unfold calculate_orbital_period.
  rewrite sqrt_Ok by (apply period_arg_nonneg; exact Ha). cbn [bind].
  rewrite int_floor by apply sqrt_pos. reflexivity.
Qed.

(** The floor of a square root, from a bracket of squares. *)
Lemma floor_sqrt_eq (x : R) (z : Z) :
  (0 <= z)%Z -> IZR z ^ 2 <= x < (IZR z + 1) ^ 2 -> Zfloor (sqrt x) = z.
Proof.
  intros Hz [Hlo Hhi].
  assert (Hz' : 0 <= IZR z) by (apply IZR_le; exact Hz).
  apply Zfloor_eq. split.
  - rewrite <- (sqrt_pow2 (IZR z)) by exact Hz'.
    apply sqrt_le_1_alt. exact Hlo.
  - rewrite <- (sqrt_pow2 (IZR z + 1)) by lra.
    apply sqrt_lt_1_alt. split; [| exact Hhi].
    pose proof (pow2_ge_0 (IZR z)). lra.
Qed.

Lemma period_at_1 : calculate_orbital_period 1 = Ok 365%Z.
Proof.
  rewrite period_Ok by lra. f_equal.
  apply floor_sqrt_eq; [lia |].
  unfold third_law. lra.
Qed.

Lemma period_at_1_0001 : calculate_orbital_period 1.0001 = Ok 365%Z.
Proof.
  rewrite period_Ok by lra. f_equal.
  apply floor_sqrt_eq; [lia |].
  unfold third_law. lra.
Qed.

(** C4, counterexample.  The period is not strictly increasing: it is 365 days
    both at [a = 1] and at [a = 1.0001]. *)
Lemma period_not_strictly_increasing :
  ~ (forall a1 a2 T1 T2,
        0 < a1 < a2 ->
        calculate_orbital_period a1 = Ok T1 ->
        calculate_orbital_period a2 = Ok T2 ->
        (T1 < T2)%Z).
Proof.
  intros Hstrict.
  pose proof (Hstrict 1 1.0001 365%Z 365%Z ltac:(lra) period_at_1 period_at_1_0001).
  lia.
Qed.

(** C4, amended.  The period is non-decreasing: whenever the calls for
    [0 < a1 < a2] return, the period of [a1] is at most the period of [a2]. *)
Theorem period_monotone (a1 a2 : R) (T1 T2 : Z) :
  0 < a1 < a2 ->
  calculate_orbital_period a1 = Ok T1 ->
  calculate_orbital_period a2 = Ok T2 ->
  (T1 <= T2)%Z.
Proof.
  intros [H1 H12] HT1 HT2.
  rewrite period_Ok in HT1 by lra. rewrite period_Ok in HT2 by lra.
  injection HT1 as <-. injection HT2 as <-.
  apply Zfloor_le, sqrt_le_1_alt.
  apply Rmult_le_compat_r.
  - apply Rlt_le, Rinv_0_lt_compat, third_law_pos.
  - apply (pow_incr a1 a2 3). lra.
Qed.

Lemma period_monotone_witness :
  (365 <= Zfloor (sqrt (2 ^ 3 / third_law)))%Z.
Proof.
  apply (period_monotone 1 2 365 _ ltac:(lra) period_at_1).
  apply period_Ok. lra.
Defined.

Lemma period_negative (a : R) :
  a < 0 -> calculate_orbital_period a = Raise ValueError.
Proof.
  intros Hneg. unfold calculate_orbital_period, Py.pow.
  rewrite sqrt_Raise; [reflexivity |].
  assert (H3 : a ^ 3 < 0).
  { replace (a ^ 3) with (- (- a) ^ 3) by ring.
    pose proof (pow3_pos (- a) ltac:(lra)). lra. }
  pose proof (Rinv_0_lt_compat _ third_law_pos) as Hinv.
  unfold Rdiv. nra.
Qed.

Lemma period_at_0 : calculate_orbital_period 0 = Ok 0%Z.
Proof.
  rewrite period_Ok by lra. f_equal.
  replace (0 ^ 3 / third_law) with 0 by (unfold third_law; lra).
  rewrite sqrt_0. apply (ZfloorZ 0).
Qed.

(** C5, counterexample.  At [a = 0] the call raises nothing: it returns [0]. *)
Lemma period_at_0_returns :
  calculate_orbital_period 0 = Ok 0%Z /\
  forall x, calculate_orbital_period 0 <> Raise x.
Proof.
  split; [exact period_at_0 |].
  intros x. rewrite period_at_0. discriminate.
Qed.

(** C5, amended.  There is no check on [a]: at [a = 0] the call returns
    [0], and for [a <= 0] it never returns a period other than [0]. *)
Theorem period_nonpositive (a : R) :
  a <= 0 ->
  (a = 0 -> calculate_orbital_period a = Ok 0%Z) /\
  (forall T, calculate_orbital_period a = Ok T -> T = 0%Z).
Proof.
  intros Ha. split.
  - intros ->. exact period_at_0.
  - intros T HT. destruct (Req_dec_T a 0) as [-> | Hnz].
    + rewrite period_at_0 in HT. injection HT as <-. reflexivity.
    + rewrite period_negative in HT by lra. discriminate.
Qed.

Lemma period_nonpositive_witness :
  calculate_orbital_period 0 = Ok 0%Z /\
  (forall T, calculate_orbital_period 0 = Ok T -> T = 0%Z).
Proof.
  destruct (period_nonpositive 0) as [Hzero Honly]; [lra |].
  split; [apply Hzero; reflexivity | exact Honly].
Defined.

(** In exact arithmetic, for [a > 0] the call returns the integer
    [floor(sqrt(a^3 / 0.000007495))]. *)
Theorem period_is_floor_sqrt (a : R) :
  0 < a ->
  calculate_orbital_period a = Ok (Zfloor (sqrt (a ^ 3 / 0.000007495))).
Proof.
  intros Ha. apply period_Ok. lra.
Qed.

Lemma period_is_floor_sqrt_witness :
  calculate_orbital_period 1 = Ok (Zfloor (sqrt (1 ^ 3 / 0.000007495))).
Proof. apply (period_is_floor_sqrt 1). lra. Defined.

(** ** C7: circular orbits *)

(** The tangent has period [PI]; with [tan = sin / cos] and [/ 0 = 0] the
    equation holds at the poles as well. *)
Lemma tan_plus_PI (x : R) : tan (x + PI) = tan x.
Proof.
  unfold tan. rewrite neg_sin, neg_cos.
  unfold Rdiv. rewrite Rinv_opp. ring.
Qed.




Lemma kepler_solve_circular (n : nat) (M : R) :
  (2 <= n)%nat -> kepler_solve n M 0 = Ok M.
Proof.
  intros Hn. rewrite kepler_solve_two_rounds by (lra || exact Hn).
  f_equal. ring.
Qed.

Lemma radius_circular (a v : R) : radius a 0 v = Ok a.
Proof.
  rewrite radius_Ok by (rewrite Rabs_R0; lra).
  f_equal. field.
Qed.

Lemma true_anomaly_circular (M : R) :
  true_anomaly 0 M = Ok (2 * atan (tan (M / 2))).
Proof.
  rewrite true_anomaly_Ok by lra.
  replace ((1 + 0) / (1 - 0)) with 1 by lra.
  rewrite sqrt_1, Rmult_1_l. reflexivity.
Qed.




(** ** C9: the time model *)

(** C9, counterexample.  Five seconds after the epoch the binary64 result
    of dividing by 60 twice is not the binary64 quotient by 3600. *)
Lemma adalia_day_not_quotient_by_3600 :
  B64.get_current_adalia_day unit (fun _ => tt) tt (fun _ _ => 5%float) false
  <> (5 / 3600)%float.
Proof.
  intros Heq.
  assert (Hcmp : PrimFloat.eqb
                   (B64.get_current_adalia_day unit (fun _ => tt) tt
                      (fun _ _ => 5%float) false)
                   (5 / 3600)%float = true).
  { rewrite Heq. vm_compute. reflexivity. }
  vm_compute in Hcmp. discriminate.
Qed.

(** C9, amended.  [get_current_adalia_day] returns the seconds elapsed
    since the epoch divided by 60 and again by 60, the epoch being the
    arrival timestamp when [display_day] is true and the orbit timestamp
    when it is false, whatever the clock reads.  In exact arithmetic that is
    the quotient by 3600, one day per hour. *)
Theorem adalia_day_divides_twice (display_day : bool) :
  (forall (Instant : Type) (parse : string -> Instant) (now : Instant)
          (elapsed : Instant -> Instant -> float),
      B64.get_current_adalia_day Instant parse now elapsed display_day
      = (elapsed now (parse (if display_day then START_ARRIVAL_TIMESTAMP
                             else START_ORBIT_TIMESTAMP)) / 60 / 60)%float) /\
  (forall (parse : string -> Z) (now : Z),
      get_current_adalia_day parse now display_day
      = total_seconds
          (now - parse (if display_day then START_ARRIVAL_TIMESTAMP
                        else START_ORBIT_TIMESTAMP)) / 3600).
Proof.
  split.
  - intros Instant parse now elapsed.
    unfold B64.get_current_adalia_day. destruct display_day; reflexivity.
  - intros parse now. unfold get_current_adalia_day.
    destruct display_day; field.
Qed.

(** One hour after the epoch is day one, on either anchor. *)
Example adalia_day_after_one_hour (parse : string -> Z) (display_day : bool) :
  get_current_adalia_day parse
    (parse (if display_day then START_ARRIVAL_TIMESTAMP
            else START_ORBIT_TIMESTAMP) + 3600000000)
    display_day = 1.
Proof.
  unfold get_current_adalia_day, total_seconds.
  destruct display_day.
  - replace (parse START_ARRIVAL_TIMESTAMP + 3600000000
             - parse START_ARRIVAL_TIMESTAMP)%Z with 3600000000%Z by lia.
    lra.
  - replace (parse START_ORBIT_TIMESTAMP + 3600000000
             - parse START_ORBIT_TIMESTAMP)%Z with 3600000000%Z by lia.
    lra.
Qed.

(** ** C10: the narrowed period column *)

Lemma comprehension_nth_error {A B : Type} (f : A -> outcome B)
      (l : list A) (ys : list B) (idx : nat) (x : A) :
  comprehension f l = Ok ys ->
  nth_error l idx = Some x ->
  exists y, nth_error ys idx = Some y /\ f x = Ok y.
Proof.
  revert ys idx. induction l as [| h t IH]; intros ys idx Hrun Hnth.
  - destruct idx; discriminate.
  - simpl in Hrun.
    destruct (f h) as [y | |] eqn:Hh; cbn [bind] in Hrun; try discriminate.
    destruct (comprehension f t) as [ys' | |] eqn:Ht; cbn [bind] in Hrun;
      try discriminate.
    injection Hrun as <-.
    destruct idx as [| idx]; simpl in Hnth |- *.
    + injection Hnth as <-. exists y. split; [reflexivity | exact Hh].
    + apply (IH ys' idx eq_refl Hnth).
Qed.

Lemma combine_nth_error {A B : Type} (l : list A) (l' : list B)
      (idx : nat) (x : A) (y : B) :
  nth_error l idx = Some x ->
  nth_error l' idx = Some y ->
  nth_error (combine l l') idx = Some (x, y).
Proof.
  revert l' idx. induction l as [| h t IH]; intros l' idx Hx Hy.
  - destruct idx; discriminate.
  - destruct l' as [| h' t']; [destruct idx; discriminate |].
    destruct idx as [| idx]; simpl in *.
    + congruence.
    + apply IH; assumption.
Qed.

(** A table is returned for a file with lines only. *)
Lemma load_asteroids_returns_rows (parse : string -> Z) (now : Z) (fuel : nat)
      (json_file : list JsonLine) (df : list PosRow) :
  load_asteroids parse now fuel json_file = Ok df ->
  json_file <> [] /\ load_rows parse now fuel json_file = Ok df.
Proof.
  destruct json_file as [| line rest]; simpl; intros Hload.
  - discriminate.
  - split; [discriminate | exact Hload].
Qed.

(** The row that [load_asteroids] holds for a line of the file. *)
Lemma load_asteroids_row (parse : string -> Z) (now : Z) (fuel : nat)
      (json_file : list JsonLine) (df : list PosRow)
      (idx : nat) (line : JsonLine) :
  load_asteroids parse now fuel json_file = Ok df ->
  nth_error json_file idx = Some line ->
  exists T xyz,
    calculate_orbital_period (orb_a (line_orbital line)) = Ok T /\
    nth_error df idx = Some (mkPosRow (astype (unpack line T)) xyz).
Proof.
  intros Hload Hline.
  apply load_asteroids_returns_rows in Hload. destruct Hload as [_ Hload].
  unfold load_rows in Hload.
  destruct (comprehension _ (map line_orbital json_file)) as [col | |] eqn:Hcol;
    cbn [bind] in Hload; try discriminate.
  destruct (comprehension_nth_error _ _ _ idx (line_orbital line) Hcol)
    as (T & HT & Hperiod).
  { apply map_nth_error. exact Hline. }
  unfold apply_position_to_df in Hload.
  set (table := map astype _) in Hload.
  assert (Hrow : nth_error table idx = Some (astype (unpack line T))).
  { unfold table. apply map_nth_error.
    apply (map_nth_error (fun lt => unpack (fst lt) (snd lt)) idx
             (combine json_file col) (d := (line, T))).
    apply combine_nth_error; assumption. }
  destruct (comprehension _ (map orbital table)) as [col' | |] eqn:Hcol';
    cbn [bind] in Hload; try discriminate.
  destruct (comprehension_nth_error _ _ _ idx
              (orbital (astype (unpack line T))) Hcol') as (xyz & Hxyz & _).
  { apply map_nth_error. exact Hrow. }
  injection Hload as <-.
  exists T, xyz. split; [exact Hperiod |].
  apply (map_nth_error (fun rp => mkPosRow (fst rp) (snd rp)) idx
           (combine table col') (d := (astype (unpack line T), xyz))).
  apply combine_nth_error; assumption.
Qed.



Lemma period_at_21 : Zfloor (sqrt (21 ^ 3 / 0.000007495)) = 35151%Z.
Proof. apply floor_sqrt_eq; [lia | lra]. Qed.

Lemma position_circular (n : nat) (a i o w m aday : R) :
  0 < a -> (2 <= n)%nat ->
  position_at_adalia_day n a 0 i o w m aday
  = Ok (cartesian a i o (w + o)
          (2 * atan (tan ((m + k / sqrt (a ^ 3) * aday) / 2)))).
Proof.
  intros Ha Hn. unfold position_at_adalia_day.
  rewrite mean_anomaly_Ok by exact Ha. cbn [bind].
  rewrite kepler_solve_circular by exact Hn. cbn [bind].
  rewrite true_anomaly_circular. cbn [bind].
  rewrite radius_circular. reflexivity.
Qed.



(** * Further properties of the code *)

(** ** [position_at_adalia_day]: where it returns and how it fails *)

(** Beyond [|e| = 1] the quotient of line 50 is negative and [math.sqrt]
    rejects it. *)
Lemma true_anomaly_hyperbolic (e E : R) :
  1 < Rabs e -> true_anomaly e E = Raise ValueError.
Proof.
  intros He. unfold true_anomaly.
  assert (Hcase : e < -1 \/ 1 < e).
  { unfold Rabs in He. destruct (Rcase_abs e); lra. }
  rewrite div_Ok by lra. cbn [bind].
  rewrite sqrt_Raise; [reflexivity |].
  destruct Hcase as [Hlo | Hhi].
  - assert (Hinv : 0 < / (1 - e)) by (apply Rinv_0_lt_compat; lra).
    unfold Rdiv. nra.
  - assert (Hinv : 0 < / (e - 1)) by (apply Rinv_0_lt_compat; lra).
    replace ((1 + e) / (1 - e)) with (- ((1 + e) * / (e - 1))) by (field; lra).
    nra.
Qed.

(** At [e = -1] line 50 gives [v = 0] and line 51 divides by [1 - 1]. *)
Lemma radius_at_minus_one (a E : R) :
  (v <- true_anomaly (-1) E ;; radius a (-1) v) = Raise ZeroDivisionError.
Proof.
  rewrite true_anomaly_Ok by lra. cbn [bind].
  replace ((1 + -1) / (1 - -1)) with 0 by lra.
  rewrite sqrt_0, Rmult_0_l, atan_0, Rmult_0_r.
  unfold radius. apply div_Raise. rewrite cos_0. lra.
Qed.

(** What the lines after the loop do with an eccentricity of modulus at
    least one. *)
Lemma after_loop_outside_domain (a e E : R) :
  1 <= Rabs e ->
  (v <- true_anomaly e E ;; r <- radius a e v ;; Ok (r, v))
  = Raise (if Req_dec_T (Rabs e) 1 then ZeroDivisionError else ValueError).
Proof.
  intros He. destruct (Req_dec_T (Rabs e) 1) as [Hone | Hmore].
  - assert (Hcase : e = 1 \/ e = -1).
    { unfold Rabs in Hone. destruct (Rcase_abs e); [right | left]; lra. }
    destruct Hcase as [-> | ->].
    + rewrite true_anomaly_parabolic. reflexivity.
    + pose proof (radius_at_minus_one a E) as Hrad.
      destruct (true_anomaly (-1) E) as [v | x |]; cbn [bind] in *;
        [rewrite Hrad; reflexivity | congruence | discriminate].
  - rewrite true_anomaly_hyperbolic by lra. reflexivity.
Qed.

Lemma position_outside_domain (n : nat) (a e i o w m aday : R) :
  0 < a -> 1 <= Rabs e ->
  position_at_adalia_day n a e i o w m aday
  = (E <- kepler_solve n (m + k / sqrt (a ^ 3) * aday) e ;;
     Raise (if Req_dec_T (Rabs e) 1 then ZeroDivisionError else ValueError)).
Proof.
  intros Ha He. unfold position_at_adalia_day.
  rewrite mean_anomaly_Ok by exact Ha. cbn [bind].
  destruct (kepler_solve n _ e) as [E | x |]; cbn [bind]; try reflexivity.
  pose proof (after_loop_outside_domain a e E He) as Hafter.
  destruct (true_anomaly e E) as [v | x |]; cbn [bind] in *.
  - destruct (radius a e v) as [r | x |]; cbn [bind] in *;
      [discriminate | congruence | discriminate].
  - congruence.
  - discriminate.
Qed.

Lemma mean_anomaly_nonpositive (a m aday : R) :
  a <= 0 ->
  mean_anomaly a m aday
  = Raise (if Req_dec_T a 0 then ZeroDivisionError else ValueError).
Proof.
  intros Ha. unfold mean_anomaly, Py.pow.
  destruct (Req_dec_T a 0) as [-> | Hnz].
  - rewrite sqrt_Ok by lra. cbn [bind].
    rewrite div_Raise; [reflexivity |].
    replace (0 ^ 3) with 0 by ring. apply sqrt_0.
  - rewrite sqrt_Raise; [reflexivity |].
    replace (a ^ 3) with (- (- a) ^ 3) by ring.
    pose proof (pow3_pos (- a) ltac:(lra)). lra.
Qed.

Lemma position_never_Ok (n : nat) (a e i o w m aday : R) (xyz : list R) :
  a <= 0 \/ 1 <= Rabs e ->
  position_at_adalia_day n a e i o w m aday <> Ok xyz.
Proof.
  intros Hbad.
  destruct (Rle_dec a 0) as [Ha | Ha].
  - unfold position_at_adalia_day.
    rewrite mean_anomaly_nonpositive by exact Ha. discriminate.
  - destruct Hbad as [Hbad | He]; [contradiction |].
    rewrite position_outside_domain by lra.
    destruct (kepler_solve n _ e); discriminate.
Qed.

(** X1.  Coordinates come back only from inside the domain: whenever the
    call returns, [a > 0] and [|e| < 1] (so an eccentricity in [(-1, 0)] is
    not excluded). *)
Theorem position_returns_only_in_domain (n : nat) (a e i o w m aday : R)
        (xyz : list R) :
  position_at_adalia_day n a e i o w m aday = Ok xyz ->
  0 < a /\ Rabs e < 1.
Proof.
  intros Hrun.
  destruct (Rle_dec a 0) as [Ha | Ha].
  - exfalso. revert Hrun. apply position_never_Ok. left. exact Ha.
  - destruct (Rlt_dec (Rabs e) 1) as [He | He]; [split; lra |].
    exfalso. revert Hrun. apply position_never_Ok. right. lra.
Qed.

Lemma position_returns_only_in_domain_witness :
  0 < 1 /\ Rabs 0.1 < 1.
Proof.
  apply (position_returns_only_in_domain 2 1 0.1 0 0 0 0 0 _
           position_at_periapsis).
Defined.

(** X2.  With [|e| >= 1], once the mean anomaly is there and the loop has
    ended, the call fails: with [ZeroDivisionError] when [|e| = 1] (line 50
    for [e = 1], line 51 for [e = -1]) and with [ValueError] from
    [math.sqrt] when [|e| > 1]. *)
Theorem position_fails_after_loop (n : nat) (a e i o w m aday M E : R) :
  1 <= Rabs e ->
  mean_anomaly a m aday = Ok M ->
  kepler_solve n M e = Ok E ->
  position_at_adalia_day n a e i o w m aday
  = Raise (if Req_dec_T (Rabs e) 1 then ZeroDivisionError else ValueError).
Proof.
  intros He HM Hrun. unfold position_at_adalia_day.
  rewrite HM. cbn [bind]. rewrite Hrun. cbn [bind].
  pose proof (after_loop_outside_domain a e E He) as Hafter.
  destruct (true_anomaly e E) as [v | x |]; cbn [bind] in *.
  - destruct (radius a e v) as [r | x |]; cbn [bind] in *;
      [discriminate | congruence | discriminate].
  - congruence.
  - discriminate.
Qed.

Lemma position_fails_after_loop_witness :
  position_at_adalia_day 2 1 (-1) 0 0 0 0 0 = Raise ZeroDivisionError.
Proof.
  rewrite (position_fails_after_loop 2 1 (-1) 0 0 0 0 0 0 (0 + -1 * sin 0)).
  - destruct (Req_dec_T (Rabs (-1)) 1) as [_ | Hne]; [reflexivity |].
    exfalso. apply Hne. rewrite Rabs_left; lra.
  - rewrite Rabs_left; lra.
  - rewrite mean_anomaly_Ok by lra. f_equal. ring.
  - apply kepler_solve_two_rounds; [rewrite sin_0; lra | lia].
Defined.

(** X3.  With [a = 0] the call fails at the mean motion of line 35, before
    the loop is entered and whatever the other arguments are: the division
    by [sqrt(0)] raises [ZeroDivisionError]. *)
Theorem position_zero_axis (n : nat) (e i o w m aday : R) :
  position_at_adalia_day n 0 e i o w m aday = Raise ZeroDivisionError.
Proof.
  unfold position_at_adalia_day.
  rewrite mean_anomaly_nonpositive by lra.
  destruct (Req_dec_T 0 0) as [_ | Hne]; [reflexivity | contradiction].
Qed.

(** ** [position_at_adalia_day]: geometry of the result *)

(** The rotation of lines 54 to 56 keeps the length: the point lies at
    distance [r], scaled, from the origin. *)
Lemma cartesian_norm (r i o p v x y z : R) :
  cartesian r i o p v = [x; y; z] ->
  x ^ 2 + y ^ 2 + z ^ 2 = (r * AU_MULTIPLIER) ^ 2.
Proof.
  unfold cartesian. intros Hxyz. injection Hxyz as <- <- <-.
  pose proof (sin2_cos2 o) as Ho. pose proof (sin2_cos2 (v + p - o)) as Hu.
  pose proof (sin2_cos2 i) as Hi. unfold Rsqr in Ho, Hu, Hi.
  set (so := sin o) in *. set (co := cos o) in *.
  set (su := sin (v + p - o)) in *. set (cu := cos (v + p - o)) in *.
  set (si := sin i) in *. set (ci := cos i) in *.
  replace ((r * (co * cu - so * su * ci) * AU_MULTIPLIER) ^ 2
           + (r * (so * cu + co * su * ci) * AU_MULTIPLIER) ^ 2
           + (r * su * si * AU_MULTIPLIER) ^ 2)
    with ((r * AU_MULTIPLIER) ^ 2
          * ((so * so + co * co) * (cu * cu)
             + (so * so + co * co) * (su * su) * (ci * ci)
             + (su * su) * (si * si))) by ring.
  rewrite Ho, !Rmult_1_l.
  replace (cu * cu + su * su * (ci * ci) + su * su * (si * si))
    with (su * su * (si * si + ci * ci) + cu * cu) by ring.
  rewrite Hi, Rmult_1_r, Hu. ring.
Qed.

(** Line 51 keeps the radius between perihelion and aphelion. *)
Lemma radius_bounds (a e v : R) :
  0 < a -> 0 <= e < 1 ->
  a * (1 - e) <= a * (1 - e ^ 2) / (1 + e * cos v) <= a * (1 + e).
Proof.
  intros Ha He.
  destruct (COS_bound v) as [Hlo Hhi].
  set (c := cos v) in *.
  assert (Hd : 0 < 1 + e * c) by nra.
  assert (Hq : a * (1 - e ^ 2) / (1 + e * c) * (1 + e * c) = a * (1 - e ^ 2))
    by (field; lra).
  split.
  - apply (Rmult_le_reg_r (1 + e * c)); [exact Hd |].
    rewrite Hq.
    assert (H1 : 0 <= a * (1 - e)) by nra.
    assert (H2 : 0 <= e * (1 - c)) by nra.
    pose proof (Rmult_le_pos _ _ H1 H2). simpl. lra.
  - apply (Rmult_le_reg_r (1 + e * c)); [exact Hd |].
    rewrite Hq.
    assert (H1 : 0 <= a * (1 + e)) by nra.
    assert (H2 : 0 <= e * (1 + c)) by nra.
    pose proof (Rmult_le_pos _ _ H1 H2). simpl. lra.
Qed.

(** X4.  For [a > 0] and [0 <= e < 1], a position the call returns lies
    between the perihelion distance [a*(1-e)] and the aphelion distance
    [a*(1+e)] from the origin, times [AU_MULTIPLIER]. *)
Theorem position_between_apsides (n : nat) (a e i o w m aday x y z : R) :
  0 < a -> 0 <= e < 1 ->
  position_at_adalia_day n a e i o w m aday = Ok [x; y; z] ->
  a * (1 - e) * AU_MULTIPLIER
  <= sqrt (x ^ 2 + y ^ 2 + z ^ 2)
  <= a * (1 + e) * AU_MULTIPLIER.
Proof.
  intros Ha He. unfold position_at_adalia_day.
  destruct (mean_anomaly a m aday) as [M | ? |]; cbn [bind]; try discriminate.
  destruct (kepler_solve n M e) as [E | ? |]; cbn [bind]; try discriminate.
  rewrite true_anomaly_Ok by lra. cbn [bind].
  rewrite radius_Ok by (rewrite Rabs_right; lra). cbn [bind].
  set (v := 2 * atan (sqrt ((1 + e) / (1 - e)) * tan (E / 2))).
  set (r := a * (1 - e ^ 2) / (1 + e * cos v)).
  intros Hrun.
  assert (Hxyz : cartesian r i o (w + o) v = [x; y; z]) by congruence.
  rewrite (cartesian_norm _ _ _ _ _ _ _ _ Hxyz).
  pose proof (radius_bounds a e v Ha He) as Hr. fold r in Hr.
  assert (Hau : 0 < AU_MULTIPLIER) by (unfold AU_MULTIPLIER; lra).
  assert (Hperi : 0 <= a * (1 - e)) by nra.
  assert (Hpos : 0 <= r * AU_MULTIPLIER) by (apply Rmult_le_pos; lra).
  rewrite sqrt_pow2 by exact Hpos.
  split; apply Rmult_le_compat_r; lra.
Qed.

Lemma position_between_apsides_witness :
  1 * (1 - 0.1) * AU_MULTIPLIER
  <= sqrt ((0.9 * AU_MULTIPLIER) ^ 2 + 0 ^ 2 + 0 ^ 2)
  <= 1 * (1 + 0.1) * AU_MULTIPLIER.
Proof.
  apply (position_between_apsides 2 1 0.1 0 0 0 0 0 _ _ _
           ltac:(lra) ltac:(lra) position_at_periapsis).
Defined.

(** ** Angles are taken as they come: a full turn changes nothing *)

Lemma sin_plus_2PI (x : R) : sin (x + 2 * PI) = sin x.
Proof. rewrite sin_plus, sin_2PI, cos_2PI. ring. Qed.

Lemma cos_plus_2PI (x : R) : cos (x + 2 * PI) = cos x.
Proof. rewrite cos_plus, sin_2PI, cos_2PI. ring. Qed.

(** The loop started one turn further runs through the same rounds and ends
    one turn further. *)
Lemma kepler_while_turn (n : nat) (M e E d : R) :
  kepler_while n (M + 2 * PI) e (E + 2 * PI) d
  = (E' <- kepler_while n M e E d ;; Ok (E' + 2 * PI)).
Proof.
  revert E d. induction n as [| n IH]; intros E d; simpl.
  - reflexivity.
  - destruct (Rgt_dec d tolerance) as [Hgt | Hle]; [| reflexivity].
    rewrite sin_plus_2PI.
    replace (M + 2 * PI + e * sin E) with (M + e * sin E + 2 * PI) by ring.
    replace (M + e * sin E + 2 * PI - (E + 2 * PI)) with (M + e * sin E - E)
      by ring.
    apply IH.
Qed.

Lemma true_anomaly_turn (e E : R) :
  true_anomaly e (E + 2 * PI) = true_anomaly e E.
Proof.
  unfold true_anomaly.
  replace ((E + 2 * PI) / 2) with (E / 2 + PI) by field.
  rewrite tan_plus_PI. reflexivity.
Qed.

Lemma cartesian_turn (r i o p v : R) :
  cartesian r (i + 2 * PI) o p v = cartesian r i o p v /\
  cartesian r i o (p + 2 * PI) v = cartesian r i o p v /\
  cartesian r i (o + 2 * PI) (p + 2 * PI) v = cartesian r i o p v.
Proof.
  unfold cartesian. repeat split.
  - rewrite sin_plus_2PI, cos_plus_2PI. reflexivity.
  - replace (v + (p + 2 * PI) - o) with (v + p - o + 2 * PI) by ring.
    rewrite sin_plus_2PI, cos_plus_2PI. reflexivity.
  - replace (v + (p + 2 * PI) - (o + 2 * PI)) with (v + p - o) by ring.
    rewrite sin_plus_2PI, cos_plus_2PI. reflexivity.
Qed.

(** X7.  No angle is reduced modulo [2*PI] anywhere, and none needs to be:
    adding a full turn to the mean anomaly at epoch [m], to the inclination
    [i], to the argument of periapsis [w] or to the longitude of the node
    [o] leaves the outcome of the call unchanged, errors included. *)
Theorem position_full_turn (n : nat) (a e i o w m aday : R) :
  position_at_adalia_day n a e i o w (m + 2 * PI) aday
  = position_at_adalia_day n a e i o w m aday /\
  position_at_adalia_day n a e (i + 2 * PI) o w m aday
  = position_at_adalia_day n a e i o w m aday /\
  position_at_adalia_day n a e i o (w + 2 * PI) m aday
  = position_at_adalia_day n a e i o w m aday /\
  position_at_adalia_day n a e i (o + 2 * PI) w m aday
  = position_at_adalia_day n a e i o w m aday.
Proof.
  unfold position_at_adalia_day. repeat split.
  - unfold mean_anomaly.
    destruct (Py.sqrt (Py.pow a 3)) as [s | x |]; cbn [bind]; try reflexivity.
    destruct (Py.div k s) as [q | x |]; cbn [bind]; try reflexivity.
    replace (m + 2 * PI + q * aday) with (m + q * aday + 2 * PI) by ring.
    unfold kepler_solve. rewrite kepler_while_turn.
    destruct (kepler_while n (m + q * aday) e (m + q * aday) 1)
      as [E | x |]; cbn [bind]; try reflexivity.
    rewrite true_anomaly_turn. reflexivity.
  - destruct (mean_anomaly a m aday) as [M | x |]; cbn [bind]; try reflexivity.
    destruct (kepler_solve n M e) as [E | x |]; cbn [bind]; try reflexivity.
    destruct (true_anomaly e E) as [v | x |]; cbn [bind]; try reflexivity.
    destruct (radius a e v) as [r | x |]; cbn [bind]; try reflexivity.
    f_equal. apply cartesian_turn.
  - destruct (mean_anomaly a m aday) as [M | x |]; cbn [bind]; try reflexivity.
    destruct (kepler_solve n M e) as [E | x |]; cbn [bind]; try reflexivity.
    destruct (true_anomaly e E) as [v | x |]; cbn [bind]; try reflexivity.
    destruct (radius a e v) as [r | x |]; cbn [bind]; try reflexivity.
    f_equal. replace (w + 2 * PI + o) with (w + o + 2 * PI) by ring.
    apply cartesian_turn.
  - destruct (mean_anomaly a m aday) as [M | x |]; cbn [bind]; try reflexivity.
    destruct (kepler_solve n M e) as [E | x |]; cbn [bind]; try reflexivity.
    destruct (true_anomaly e E) as [v | x |]; cbn [bind]; try reflexivity.
    destruct (radius a e v) as [r | x |]; cbn [bind]; try reflexivity.
    f_equal. replace (w + (o + 2 * PI)) with (w + o + 2 * PI) by ring.
    apply cartesian_turn.
Qed.

(** ** Zero inclination: only the longitude of perihelion matters *)

Lemma cartesian_planar (r o p v : R) :
  cartesian r 0 o p v
  = [r * cos (v + p) * AU_MULTIPLIER; r * sin (v + p) * AU_MULTIPLIER; 0].
Proof.
  assert (Hc : cos (v + p) = cos o * cos (v + p - o) - sin o * sin (v + p - o))
    by (rewrite <- cos_plus; f_equal; ring).
  assert (Hs : sin (v + p) = sin o * cos (v + p - o) + cos o * sin (v + p - o))
    by (rewrite <- sin_plus; f_equal; ring).
  unfold cartesian. rewrite sin_0, cos_0, Hc, Hs.
  f_equal; [ring |]. f_equal; [ring |]. f_equal. ring.
Qed.

(** X8.  For [i = 0] the point lies in the reference plane at the polar
    angle [v + w + o]: the call depends on [w] and [o] through their sum
    only, so that moving all of it into [w] gives the same outcome. *)
Theorem position_planar (n : nat) (a e o w m aday : R) :
  position_at_adalia_day n a e 0 o w m aday
  = position_at_adalia_day n a e 0 0 (w + o) m aday.
Proof.
  unfold position_at_adalia_day.
  destruct (mean_anomaly a m aday) as [M | x |]; cbn [bind]; try reflexivity.
  destruct (kepler_solve n M e) as [E | x |]; cbn [bind]; try reflexivity.
  destruct (true_anomaly e E) as [v | x |]; cbn [bind]; try reflexivity.
  destruct (radius a e v) as [r | x |]; cbn [bind]; try reflexivity.
  rewrite !cartesian_planar. rewrite Rplus_0_r. reflexivity.
Qed.

(** ** Comprehensions and frames *)

Lemma comprehension_length {A B : Type} (f : A -> outcome B)
      (l : list A) (ys : list B) :
  comprehension f l = Ok ys -> List.length ys = List.length l.
Proof.
  revert ys. induction l as [| h t IH]; intros ys Hrun; simpl in Hrun.
  - injection Hrun as <-. reflexivity.
  - destruct (f h) as [y | |]; cbn [bind] in Hrun; try discriminate.
    destruct (comprehension f t) as [ys' | |]; cbn [bind] in Hrun;
      try discriminate.
    injection Hrun as <-. simpl. f_equal. apply IH. reflexivity.
Qed.

Lemma comprehension_In {A B : Type} (f : A -> outcome B)
      (l : list A) (ys : list B) (x : A) :
  comprehension f l = Ok ys -> In x l -> exists y, f x = Ok y.
Proof.
  intros Hrun Hin.
  destruct (In_nth_error _ _ Hin) as [idx Hidx].
  destruct (comprehension_nth_error f l ys idx x Hrun Hidx) as (y & _ & Hy).
  exists y. exact Hy.
Qed.

Lemma comprehension_all_Ok {A B : Type} (f : A -> outcome B) (g : A -> B)
      (l : list A) :
  (forall x, In x l -> f x = Ok (g x)) -> comprehension f l = Ok (map g l).
Proof.
  induction l as [| h t IH]; intros Hall; simpl.
  - reflexivity.
  - rewrite (Hall h) by (left; reflexivity). cbn [bind].
    rewrite IH by (intros x Hx; apply Hall; right; exact Hx).
    reflexivity.
Qed.

(** A comprehension over calls that need fuel: when every call returns from
    some amount of fuel on, so does the comprehension. *)
Lemma comprehension_enough_fuel {A B : Type} (f : nat -> A -> outcome B)
      (l : list A) :
  (forall x, In x l ->
     exists n y, forall n', (n <= n')%nat -> f n' x = Ok y) ->
  exists n ys, forall n', (n <= n')%nat -> comprehension (f n') l = Ok ys.
Proof.
  induction l as [| h t IH]; intros Hall.
  - exists 0%nat, []. reflexivity.
  - destruct (Hall h (or_introl eq_refl)) as (n1 & y & Hy).
    destruct IH as (n2 & ys & Hys).
    { intros x Hx. apply Hall. right. exact Hx. }
    exists (Nat.max n1 n2), (y :: ys). intros n' Hn'. simpl.
    rewrite Hy by lia. cbn [bind]. rewrite Hys by lia. reflexivity.
Qed.

Lemma map_fst_combine_same_length {A B : Type} (l : list A) (l' : list B) :
  List.length l' = List.length l -> map fst (combine l l') = l.
Proof.
  revert l'. induction l as [| h t IH]; intros l' Hlen.
  - reflexivity.
  - destruct l' as [| h' t']; [discriminate |].
    simpl. f_equal. apply IH. simpl in Hlen. lia.
Qed.

Lemma nth_error_combine_inv {A B : Type} (l : list A) (l' : list B)
      (idx : nat) (x : A) (y : B) :
  nth_error (combine l l') idx = Some (x, y) ->
  nth_error l idx = Some x /\ nth_error l' idx = Some y.
Proof.
  revert l' idx. induction l as [| h t IH]; intros l' idx Hnth.
  - destruct idx; discriminate.
  - destruct l' as [| h' t']; [destruct idx; discriminate |].
    destruct idx as [| idx]; simpl in *.
    + injection Hnth as <- <-. split; reflexivity.
    + apply IH. exact Hnth.
Qed.

(** ** [apply_position_to_df] *)

Lemma apply_position_rows (parse : string -> Z) (now : Z) (fuel : nat)
      (df : list Row) (out : list PosRow) :
  apply_position_to_df parse now fuel df = Ok out -> map row out = df.
Proof.
  unfold apply_position_to_df. intros Hrun.
  destruct (comprehension _ (map orbital df)) as [col | |] eqn:Hcol;
    cbn [bind] in Hrun; try discriminate.
  injection Hrun as <-.
  rewrite map_map. cbn [row].
  apply map_fst_combine_same_length.
  rewrite (comprehension_length _ _ _ Hcol). apply length_map.
Qed.

Lemma apply_position_pos (parse : string -> Z) (now : Z) (fuel : nat)
      (df : list Row) (out : list PosRow) (idx : nat) (prow : PosRow) :
  apply_position_to_df parse now fuel df = Ok out ->
  nth_error out idx = Some prow ->
  position_at_adalia_day fuel
    (orb_a (orbital (row prow))) (orb_e (orbital (row prow)))
    (orb_i (orbital (row prow))) (orb_o (orbital (row prow)))
    (orb_w (orbital (row prow))) (orb_m (orbital (row prow)))
    (get_current_adalia_day parse now false)
  = Ok (pos prow).
Proof.
  unfold apply_position_to_df. intros Hrun Hnth.
  destruct (comprehension _ (map orbital df)) as [col | |] eqn:Hcol;
    cbn [bind] in Hrun; try discriminate.
  injection Hrun as <-.
  rewrite nth_error_map in Hnth.
  destruct (nth_error (combine df col) idx) as [[r xyz] |] eqn:Hpair;
    [| discriminate].
  injection Hnth as <-. cbn [row pos fst snd].
  destruct (nth_error_combine_inv _ _ _ _ _ Hpair) as [Hr Hxyz].
  destruct (comprehension_nth_error _ _ _ idx (orbital r) Hcol)
    as (xyz' & Hxyz' & Hpos).
  { apply map_nth_error. exact Hr. }
  rewrite Hxyz in Hxyz'. injection Hxyz' as <-. exact Hpos.
Qed.

(** X9.  [apply_position_to_df] keeps the rows of the frame as they are and
    in their order, and gives each the position of its own orbital elements
    at one and the same day for the whole frame: the current day counted
    from the orbit epoch (not from the arrival). *)
Theorem apply_position_shape (parse : string -> Z) (now : Z) (fuel : nat)
        (df : list Row) (out : list PosRow) :
  apply_position_to_df parse now fuel df = Ok out ->
  map row out = df /\
  forall idx prow,
    nth_error out idx = Some prow ->
    position_at_adalia_day fuel
      (orb_a (orbital (row prow))) (orb_e (orbital (row prow)))
      (orb_i (orbital (row prow))) (orb_o (orbital (row prow)))
      (orb_w (orbital (row prow))) (orb_m (orbital (row prow)))
      (total_seconds (now - parse START_ORBIT_TIMESTAMP) / 60 / 60)
    = Ok (pos prow).
Proof.
  intros Hrun. split.
  - apply (apply_position_rows _ _ _ _ _ Hrun).
  - intros idx prow Hnth.
    apply (apply_position_pos _ _ _ _ _ _ _ Hrun Hnth).
Qed.

(** X10.  One row is enough to lose the whole frame: when a row has
    [a <= 0] or [|e| >= 1], [apply_position_to_df] returns no frame at all,
    whatever the other rows are. *)
Theorem apply_position_all_or_nothing (parse : string -> Z) (now : Z)
        (fuel : nat) (df : list Row) (out : list PosRow) (x : Row) :
  In x df ->
  orb_a (orbital x) <= 0 \/ 1 <= Rabs (orb_e (orbital x)) ->
  apply_position_to_df parse now fuel df <> Ok out.
Proof.
  intros Hin Hbad Hrun. unfold apply_position_to_df in Hrun.
  destruct (comprehension _ (map orbital df)) as [col | |] eqn:Hcol;
    cbn [bind] in Hrun; try discriminate.
  destruct (comprehension_In _ _ _ (orbital x) Hcol) as [xyz Hxyz].
  { apply in_map. exact Hin. }
  revert Hxyz. apply position_never_Ok. exact Hbad.
Qed.

Lemma apply_far_row :
  apply_position_to_df (fun _ => 0%Z) 0 2
    [mkRow 1 1 1 "far" (mkOrbital 21 0 0 0 0 0) (Some EmptyString) 35151]
  = Ok [mkPosRow
          (mkRow 1 1 1 "far" (mkOrbital 21 0 0 0 0 0) (Some EmptyString) 35151)
          (cartesian 21 0 0 (0 + 0)
             (2 * atan (tan ((0 + k / sqrt (21 ^ 3)
                                  * get_current_adalia_day (fun _ => 0%Z) 0 false)
                             / 2))))].
Proof.
  unfold apply_position_to_df.
  cbn [map comprehension orbital orb_a orb_e orb_i orb_o orb_w orb_m].
  rewrite position_circular by (lra || lia).
  reflexivity.
Qed.

Lemma apply_position_shape_witness :
  map row
    [mkPosRow
       (mkRow 1 1 1 "far" (mkOrbital 21 0 0 0 0 0) (Some EmptyString) 35151)
       (cartesian 21 0 0 (0 + 0)
          (2 * atan (tan ((0 + k / sqrt (21 ^ 3)
                               * get_current_adalia_day (fun _ => 0%Z) 0 false)
                          / 2))))]
  = [mkRow 1 1 1 "far" (mkOrbital 21 0 0 0 0 0) (Some EmptyString) 35151].
Proof.
  exact (proj1 (apply_position_shape (fun _ => 0%Z) 0 2 _ _ apply_far_row)).
Defined.

Lemma apply_position_all_or_nothing_witness :
  apply_position_to_df (fun _ => 0%Z) 0 2
    [mkRow 1 1 1 "far" (mkOrbital 21 0 0 0 0 0) (Some EmptyString) 35151;
     mkRow 2 2 1 "open" (mkOrbital 1 1 0 0 0 0) (Some EmptyString) 365]
  <> Ok [].
Proof.
  apply (apply_position_all_or_nothing (fun _ => 0%Z) 0 2 _ []
           (mkRow 2 2 1 "open" (mkOrbital 1 1 0 0 0 0) (Some EmptyString) 365)).
  - right. left. reflexivity.
  - right. cbn [orbital orb_e]. rewrite Rabs_R1. lra.
Defined.

(** ** [load_asteroids] *)

(** The frame handed to [apply_position_to_df]: one narrowed row per line. *)
Lemma table_length (json_file : list JsonLine) (col : list Z) :
  List.length col = List.length json_file ->
  List.length
    (map astype (map (fun lt => unpack (fst lt) (snd lt)) (combine json_file col)))
  = List.length json_file.
Proof.
  intros Hlen. rewrite !length_map, length_combine. lia.
Qed.

Lemma table_row_of_line (json_file : list JsonLine) (col : list Z) (r : Row) :
  In r (map astype
          (map (fun lt => unpack (fst lt) (snd lt)) (combine json_file col))) ->
  exists line T, In line json_file /\ r = astype (unpack line T).
Proof.
  intros Hin.
  apply in_map_iff in Hin. destruct Hin as (r' & <- & Hin).
  apply in_map_iff in Hin. destruct Hin as ([line T] & <- & Hin).
  exists line, T. split; [| reflexivity].
  apply (in_combine_l _ _ _ _ Hin).
Qed.

(** [load_asteroids] is the period column followed by
    [apply_position_to_df] on the narrowed frame. *)
Lemma load_asteroids_stages (parse : string -> Z) (now : Z) (fuel : nat)
      (json_file : list JsonLine) (df : list PosRow) :
  load_asteroids parse now fuel json_file = Ok df ->
  exists col,
    comprehension (fun x => calculate_orbital_period (orb_a x))
      (map line_orbital json_file) = Ok col /\
    apply_position_to_df parse now fuel
      (map astype
         (map (fun lt => unpack (fst lt) (snd lt)) (combine json_file col)))
    = Ok df.
Proof.
  intros Hrun.
  apply load_asteroids_returns_rows in Hrun. destruct Hrun as [_ Hrun].
  unfold load_rows in Hrun.
  destruct (comprehension _ (map line_orbital json_file)) as [col | |];
    cbn [bind] in Hrun; try discriminate.
  exists col. split; [reflexivity | exact Hrun].
Qed.

Lemma load_asteroids_length (parse : string -> Z) (now : Z) (fuel : nat)
      (json_file : list JsonLine) (df : list PosRow) :
  load_asteroids parse now fuel json_file = Ok df ->
  List.length df = List.length json_file.
Proof.
  intros Hrun.
  destruct (load_asteroids_stages _ _ _ _ _ Hrun) as (col & Hcol & Happly).
  rewrite <- (length_map row), (apply_position_rows _ _ _ _ _ Happly).
  apply table_length.
  rewrite (comprehension_length _ _ _ Hcol). apply length_map.
Qed.

(** The period column fails on the first negative semi-major axis. *)
Lemma period_column_negative (l : list Orbital) (x : Orbital) :
  In x l -> orb_a x < 0 ->
  comprehension (fun x => calculate_orbital_period (orb_a x)) l
  = Raise ValueError.
Proof.
  induction l as [| h t IH]; intros Hin Hneg; [contradiction |].
  simpl. destruct (Rlt_dec (orb_a h) 0) as [Hh | Hh].
  - rewrite period_negative by exact Hh. reflexivity.
  - rewrite period_Ok by lra. cbn [bind].
    destruct Hin as [-> | Hin]; [contradiction |].
    rewrite IH by assumption. reflexivity.
Qed.

(** X12.  One line is enough to lose the whole table: when a line of the
    file has [a <= 0] or [|e| >= 1], [load_asteroids] returns no table,
    whatever the other lines are. *)
Theorem load_asteroids_all_or_nothing (parse : string -> Z) (now : Z)
        (fuel : nat) (json_file : list JsonLine) (line : JsonLine)
        (df : list PosRow) :
  In line json_file ->
  orb_a (line_orbital line) <= 0 \/ 1 <= Rabs (orb_e (line_orbital line)) ->
  load_asteroids parse now fuel json_file <> Ok df.
Proof.
  intros Hin Hbad Hrun.
  destruct (In_nth_error _ _ Hin) as [idx Hidx].
  destruct (load_asteroids_row _ _ _ _ _ _ _ Hrun Hidx)
    as (T & xyz & _ & Hrow).
  destruct (load_asteroids_stages _ _ _ _ _ Hrun) as (col & _ & Happly).
  pose proof (apply_position_pos _ _ _ _ _ _ _ Happly Hrow) as Hpos.
  cbn [row pos astype unpack orbital] in Hpos.
  revert Hpos. apply position_never_Ok. exact Hbad.
Qed.

Lemma load_asteroids_all_or_nothing_witness :
  load_asteroids (fun _ => 0%Z) 0 2
    [far_body; mkJsonLine 2 1 "open" (mkOrbital 1 1 0 0 0 0) NameAbsent]
  <> Ok [].
Proof.
  apply (load_asteroids_all_or_nothing (fun _ => 0%Z) 0 2 _
           (mkJsonLine 2 1 "open" (mkOrbital 1 1 0 0 0 0) NameAbsent)).
  - right. left. reflexivity.
  - right. cbn [line_orbital orb_e]. rewrite Rabs_R1. lra.
Defined.

Lemma astype_int_in_range (bits z : Z) :
  (0 < bits)%Z ->
  (- 2 ^ (bits - 1) <= z < 2 ^ (bits - 1))%Z ->
  Py.astype_int bits z = z.
Proof.
  intros Hbits Hz. unfold Py.astype_int.
  assert (Hpow : (2 ^ bits = 2 * 2 ^ (bits - 1))%Z).
  { replace bits with (Z.succ (bits - 1)) at 1 by lia.
    apply Z.pow_succ_r. lia. }
  rewrite Z.mod_small by lia. lia.
Qed.

Lemma period_nonneg (a : R) (T : Z) :
  calculate_orbital_period a = Ok T -> (0 <= T)%Z.
Proof.
  intros HT. destruct (Rlt_dec a 0) as [Hneg | Hpos].
  - rewrite period_negative in HT by exact Hneg. discriminate.
  - rewrite period_Ok in HT by lra. injection HT as <-.
    apply Zfloor_lub. apply sqrt_pos.
Qed.

Lemma period_at_21_Ok : calculate_orbital_period 21 = Ok 35151%Z.
Proof.
  rewrite period_Ok by lra. unfold third_law. rewrite period_at_21.
  reflexivity.
Qed.

Lemma load_two_bodies :
  exists df,
    load_asteroids (fun _ => 0%Z) 0 2 [far_body; unnamed_body] = Ok df.
Proof.
  unfold far_body, unnamed_body. cbn [load_asteroids]. unfold load_rows.
  cbn [map comprehension line_orbital orb_a].
  rewrite period_at_21_Ok, period_at_1. cbn [bind combine map fst snd].
  unfold apply_position_to_df.
  cbn [map comprehension unpack astype orbital line_orbital
       orb_a orb_e orb_i orb_o orb_w orb_m].
  rewrite !position_circular by (lra || lia). cbn [bind].
  eexists. reflexivity.
Qed.

(** X13.  A table is returned for a file with lines only (an empty file
    raises [KeyError]); it has one row per line, in the order of the file.
    The row of a line carries the line's id as its label, its base name and
    its orbital elements unchanged, and as custom name the line's own, the
    empty string when the line has no such key, and [None] when the line
    has [null] there. *)
Theorem load_asteroids_keeps (parse : string -> Z) (now : Z) (fuel : nat)
        (json_file : list JsonLine) (df : list PosRow) :
  load_asteroids parse now fuel json_file = Ok df ->
  json_file <> [] /\
  List.length df = List.length json_file /\
  forall idx line,
    nth_error json_file idx = Some line ->
    exists kept,
      nth_error df idx = Some kept /\
      index (row kept) = line_i line /\
      baseName (row kept) = line_baseName line /\
      orbital (row kept) = line_orbital line /\
      customName (row kept)
      = match line_customName line with
        | NameAbsent => Some EmptyString
        | NameNull => None
        | NameString s => Some s
        end.
Proof.
  intros Hrun. split; [| split].
  - apply (load_asteroids_returns_rows _ _ _ _ _ Hrun).
  - apply (load_asteroids_length _ _ _ _ _ Hrun).
  - intros idx line Hline.
    destruct (load_asteroids_row _ _ _ _ _ _ _ Hrun Hline)
      as (T & xyz & _ & Hrow).
    exists (mkPosRow (astype (unpack line T)) xyz).
    split; [exact Hrow |]. cbn [row astype unpack index baseName orbital customName].
    repeat split; reflexivity.
Qed.

Lemma load_asteroids_keeps_witness :
  exists df kept,
    load_asteroids (fun _ => 0%Z) 0 2 [far_body; unnamed_body] = Ok df /\
    List.length df = 2%nat /\
    nth_error df 1 = Some kept /\
    index (row kept) = 7%Z /\
    baseName (row kept) = "near"%string /\
    orbital (row kept) = mkOrbital 1 0 0 0 0 0 /\
    customName (row kept) = None.
Proof.
  destruct load_two_bodies as [df Hdf].
  destruct (load_asteroids_keeps _ _ _ _ _ Hdf) as (_ & Hlen & Hrows).
  destruct (Hrows 1%nat unnamed_body eq_refl) as (kept & Hkept).
  exists df, kept. split; [exact Hdf |]. split; [exact Hlen | exact Hkept].
Defined.

(** X14.  The narrowing of lines 129 to 131 loses nothing in range: an id or
    a radius within the 32-bit signed range is stored as it is, and so is a
    period of at most 32767 days. *)
Theorem load_asteroids_narrowing_in_range (parse : string -> Z) (now : Z)
        (fuel : nat) (json_file : list JsonLine) (df : list PosRow)
        (idx : nat) (line : JsonLine) :
  load_asteroids parse now fuel json_file = Ok df ->
  nth_error json_file idx = Some line ->
  exists (T : Z) (kept : PosRow),
    calculate_orbital_period (orb_a (line_orbital line)) = Ok T /\
    nth_error df idx = Some kept /\
    ((- 2147483648 <= line_i line < 2147483648)%Z ->
     col_i (row kept) = line_i line) /\
    ((- 2147483648 <= line_r line < 2147483648)%Z ->
     col_r (row kept) = line_r line) /\
    ((T <= 32767)%Z -> orbital_T (row kept) = T).
Proof.
  intros Hrun Hline.
  destruct (load_asteroids_row _ _ _ _ _ _ _ Hrun Hline)
    as (T & xyz & HT & Hrow).
  exists T, (mkPosRow (astype (unpack line T)) xyz).
  split; [exact HT |]. split; [exact Hrow |].
  cbn [row astype unpack col_i col_r orbital_T].
  pose proof (period_nonneg _ _ HT) as Hnonneg.
  repeat split; intros Hrange; apply astype_int_in_range;
    try lia; change (2 ^ (32 - 1))%Z with 2147483648%Z;
    change (2 ^ (16 - 1))%Z with 32768%Z; lia.
Qed.

(** A body at 1 AU, on a circular orbit. *)
Lemma load_near_body :
  load_asteroids (fun _ => 0%Z) 0 2
    [mkJsonLine 7 3 "near" (mkOrbital 1 0 0 0 0 0) (NameString "Home")]
  = Ok [mkPosRow
          (mkRow 7 7 3 "near" (mkOrbital 1 0 0 0 0 0) (Some "Home"%string) 365)
          (cartesian 1 0 0 (0 + 0)
             (2 * atan (tan ((0 + k / sqrt (1 ^ 3)
                                  * get_current_adalia_day (fun _ => 0%Z) 0 false)
                             / 2))))].
Proof.
  cbn [load_asteroids]. unfold load_rows.
  cbn [map comprehension line_orbital orb_a].
  rewrite period_at_1. cbn [bind combine map fst snd].
  unfold apply_position_to_df.
  cbn [map comprehension unpack astype orbital line_orbital
       orb_a orb_e orb_i orb_o orb_w orb_m].
  rewrite position_circular by (lra || lia).
  reflexivity.
Qed.

Lemma load_asteroids_narrowing_in_range_witness :
  exists (T : Z) (kept : PosRow),
    calculate_orbital_period 1 = Ok T /\
    nth_error
      [mkPosRow
         (mkRow 7 7 3 "near" (mkOrbital 1 0 0 0 0 0) (Some "Home"%string) 365)
         (cartesian 1 0 0 (0 + 0)
            (2 * atan (tan ((0 + k / sqrt (1 ^ 3)
                                 * get_current_adalia_day (fun _ => 0%Z) 0 false)
                            / 2))))] 0
    = Some kept /\
    col_i (row kept) = 7%Z /\
    col_r (row kept) = 3%Z /\
    orbital_T (row kept) = T.
Proof.
  destruct (load_asteroids_narrowing_in_range (fun _ => 0%Z) 0 2 _ _ 0 _
              load_near_body eq_refl)
    as (T & kept & HT & Hkept & Hi & Hr & Hperiod).
  cbn [line_orbital orb_a line_i line_r] in HT, Hi, Hr.
  exists T, kept. split; [exact HT |]. split; [exact Hkept |].
  split; [apply Hi; lia |]. split; [apply Hr; lia |].
  apply Hperiod.
  rewrite period_at_1 in HT. injection HT as <-. lia.
Defined.

(** ** [get_current_adalia_day] and [calculate_orbital_period]: edges *)

(** X15.  The day count is linear in the clock and is not clamped: [h]
    real hours later it is [h] more, on either anchor, and before the epoch
    it is negative. *)
Theorem adalia_day_linear (parse : string -> Z) (now h : Z)
        (display_day : bool) :
  get_current_adalia_day parse (now + h * 3600000000) display_day
  = get_current_adalia_day parse now display_day + IZR h /\
  (get_current_adalia_day parse now display_day < 0
   <-> (now < parse (if display_day then START_ARRIVAL_TIMESTAMP
                     else START_ORBIT_TIMESTAMP))%Z).
Proof.
  unfold get_current_adalia_day, total_seconds.
  set (epoch := parse (if display_day then START_ARRIVAL_TIMESTAMP
                       else START_ORBIT_TIMESTAMP)).
  split.
  - replace (now + h * 3600000000 - epoch)%Z
      with (now - epoch + h * 3600000000)%Z by lia.
    rewrite plus_IZR, mult_IZR. field.
  - rewrite minus_IZR. split.
    + intros Hneg. apply lt_IZR. lra.
    + intros Hlt. apply IZR_lt in Hlt. lra.
Qed.

(** X16.  [calculate_orbital_period] never returns a negative number,
    whatever [a] is. *)
Theorem period_never_negative (a : R) (T : Z) :
  calculate_orbital_period a = Ok T -> (0 <= T)%Z.
Proof.
  intros HT. destruct (Rlt_dec a 0) as [Hneg | Hpos].
  - rewrite period_negative in HT by exact Hneg. discriminate.
  - rewrite period_Ok in HT by lra. injection HT as <-.
    apply Zfloor_lub, sqrt_pos.
Qed.

Lemma period_never_negative_witness : (0 <= 365)%Z.
Proof. exact (period_never_negative 1 365 period_at_1). Defined.

(** ** The period of the motion *)

Lemma k_pos : 0 < k.
Proof. unfold k. lra. Qed.

(** X17.  For [a > 0] the position repeats after [2*PI*sqrt(a^3)/k] days:
    advancing the day by that much advances the mean anomaly by a full turn
    and leaves the outcome of the call unchanged. *)
Theorem position_periodic_in_time (n : nat) (a e i o w m aday : R) :
  0 < a ->
  position_at_adalia_day n a e i o w m (aday + 2 * PI * sqrt (a ^ 3) / k)
  = position_at_adalia_day n a e i o w m aday.
Proof.
  intros Ha. unfold position_at_adalia_day.
  rewrite !mean_anomaly_Ok by exact Ha. cbn [bind].
  pose proof (sqrt_lt_R0 _ (pow3_pos a Ha)) as Hs.
  pose proof k_pos as Hk.
  replace (m + k / sqrt (a ^ 3) * (aday + 2 * PI * sqrt (a ^ 3) / k))
    with (m + k / sqrt (a ^ 3) * aday + 2 * PI) by (field; lra).
  unfold kepler_solve. rewrite kepler_while_turn.
  destruct (kepler_while n _ e _ 1) as [E | x |]; cbn [bind]; try reflexivity.
  rewrite true_anomaly_turn. reflexivity.
Qed.

Lemma position_periodic_in_time_witness :
  position_at_adalia_day 5 1 0.5 0 0 0 0 (3 + 2 * PI * sqrt (1 ^ 3) / k)
  = position_at_adalia_day 5 1 0.5 0 0 0 0 3.
Proof. apply (position_periodic_in_time 5 1 0.5 0 0 0 0 3). lra. Defined.
